(** * snowflake.connector.time_util

    A shallow embedding of [src/snowflake/connector/time_util.py]:
    the heartbeat timer thread, the decorrelated-jitter backoff and the
    [TimeCNM] timing context manager, with the properties their
    specification states about them.

    Python integers are unbounded, so they are [Z].  A call that may raise
    returns a [result]; code that reads the clock or draws random numbers
    threads the state it consumes. *)

From Stdlib Require Import ZArith QArith List String Bool Lia.
Import ListNotations.
Local Open Scope string_scope.
Local Open Scope Z_scope.

(** ** Python values the module handles *)

(** What a [raise] carries.  [except Exception] catches the first two
    constructors; [BaseExc] stands for the classes that derive from
    [BaseException] only ([SystemExit], [KeyboardInterrupt],
    [GeneratorExit], ...). *)
Inductive exn : Type :=
| Exception_ (msg : string)
| ValueError (msg : string)
| BaseExc (msg : string).

(** [isinstance(e, Exception)] *)
Definition is_Exception (e : exn) : bool :=
  match e with
  | Exception_ _ | ValueError _ => true
  | BaseExc _ => false
  end.

Inductive result (A : Type) : Type :=
| Ok (a : A)
| Raise (e : exn).
Arguments Ok {A} a.
Arguments Raise {A} e.

(** The values a [__exit__] may hand back to the [with] statement. *)
Inductive pyval : Type :=
| PyNone
| PyBool (b : bool).

Definition truthy (v : pyval) : bool :=
  match v with
  | PyNone => false
  | PyBool b => b
  end.

(** ** The [random] module

    [random.randint(a, b)] is [randrange(a, b + 1)], which draws
    [_randbelow(width)] when [width = b + 1 - a] is positive and raises
    [ValueError] on an empty range.  The generator itself is an interface:
    [randbelow g n] yields a number below [n] and the next generator. *)
Class RandomSource (G : Type) : Type := {
  randbelow : G -> Z -> Z * G;
  randbelow_range : forall g n, 0 < n -> 0 <= fst (randbelow g n) < n
}.

Definition randrange {G} `{RandomSource G} (g : G) (start stop : Z)
  : result Z * G :=
  let width := stop - start in
  if 0 <? width
  then let (r, g') := randbelow g width in (Ok (start + r), g')
  else (Raise (ValueError "empty range for randrange()"), g).

Definition randint {G} `{RandomSource G} (g : G) (a b : Z) : result Z * G :=
  randrange g a (b + 1).

(** A concrete generator to run the definitions on: a linear congruential
    sequence whose state is reduced modulo the requested bound. *)
Definition lcg_next (s : Z) : Z := (s * 1103515245 + 12345) mod 2147483648.

Definition lcg_randbelow (s n : Z) : Z * Z := (s mod n, lcg_next s).

#[export] Instance lcg_source : RandomSource Z :=
  {| randbelow := lcg_randbelow;
     randbelow_range := fun s n Hn => Z.mod_pos_bound s n Hn |}.

(** ** DecorrelateJitterBackoff *)
Module DecorrelateJitterBackoff.

Record t : Type := mk { _base : Z; _cap : Z }.

(** [__init__(self, base, cap)]: two attribute stores, nothing else. *)
Definition __init__ (base cap : Z) : result t :=
  Ok {| _base := base; _cap := cap |}.

(** [next_sleep(self, _, sleep)]:
    [min(self._cap, random.randint(self._base, sleep * 3))].
    The second parameter is bound and never read; it may be any object. *)
Definition next_sleep {G} `{RandomSource G} {A : Type}
    (self : t) (_ : A) (sleep : Z) (g : G) : result Z * G :=
  match randint g (_base self) (sleep * 3) with
  | (Ok n, g') => (Ok (Z.min (_cap self) n), g')
  | (Raise e, g') => (Raise e, g')
  end.

End DecorrelateJitterBackoff.

(** ** The clock and [get_time_millis]

    [time.time()] answers with the seconds since the epoch; the clock is the
    sequence of its answers and the number of reads made so far.  Seconds are
    rationals here and the product by 1000 is exact, where the code rounds
    the product of two doubles: the two can differ by a millisecond when
    the rounding crosses a whole number. *)
Record Clock : Type := { time_at : nat -> Q; reads : nat }.

Definition time_time (c : Clock) : Q * Clock :=
  (time_at c (reads c), {| time_at := time_at c; reads := S (reads c) |}).

(** [int(x)] on a real number truncates towards zero. *)
Definition int_of_Q (x : Q) : Z := Z.quot (Qnum x) (Zpos (Qden x)).

(** [get_time_millis()]: [int(time.time() * 1000)] *)
Definition get_time_millis (c : Clock) : Z * Clock :=
  let (secs, c') := time_time c in (int_of_Q (secs * 1000)%Q, c').

(** ** TimeCNM *)
Module TimeCNM.

Record t : Type := mk { _start : option Z; _end : option Z }.

Definition __init__ : t := {| _start := None; _end := None |}.

(** [__enter__]: stores the start time and returns [self]. *)
Definition __enter__ (self : t) (c : Clock) : t * Clock :=
  let (now, c') := get_time_millis c in
  ({| _start := Some now; _end := _end self |}, c').

(** [__exit__(self, exc_type, exc_val, exc_tb)]: stores the end time; the
    body has no [return], so the call evaluates to [None].  [exc] is the
    exception in flight, if any. *)
Definition __exit__ (self : t) (exc : option exn) (c : Clock)
  : pyval * t * Clock :=
  let (now, c') := get_time_millis c in
  (PyNone, {| _start := _start self; _end := Some now |}, c').

(** [__int__] *)
Definition __int__ (self : t) : result Z :=
  match _start self, _end self with
  | Some s, Some e => Ok (e - s)
  | _, _ => Raise (Exception_ "Trying to get timing before TimeCNM has finished")
  end.

(** [with TimeCNM() as measured_time: body].  The statement calls
    [__enter__], runs the body, and calls [__exit__] on either way out; an
    exception of the body is raised again unless [__exit__] answered with a
    true value.  The result is the body's outcome as the statement passes it
    on, the manager as it was left, and the clock. *)
Definition with_ (body : t -> Clock -> result unit * Clock) (c : Clock)
  : result unit * t * Clock :=
  let mgr := __init__ in
  let (mgr1, c1) := __enter__ mgr c in
  match body mgr1 c1 with
  | (Ok tt, c2) =>
      let '(_, mgr2, c3) := __exit__ mgr1 None c2 in (Ok tt, mgr2, c3)
  | (Raise e, c2) =>
      let '(v, mgr2, c3) := __exit__ mgr1 (Some e) c2 in
      if truthy v then (Ok tt, mgr2, c3) else (Raise e, mgr2, c3)
  end.

End TimeCNM.

(** ** HeartBeatTimer *)

(** Records handed to the module's logger. *)
Inductive level : Type := DEBUG | INFO | WARNING | ERROR | CRITICAL.

Record log_record : Type := { levelno : level; msg : string; arg : exn }.

(** [logger.debug("failed to heartbeat: %s", e)] *)
Definition heartbeat_failure (e : exn) : log_record :=
  {| levelno := DEBUG; msg := "failed to heartbeat: %s"; arg := e |}.

Module HeartBeatTimer.

(** The attributes [threading.Timer.__init__] sets.  [function] is the
    callback; what its [n]-th call does is its own business, so it is given
    by call number.  [finished] is the [Event]: [true] once set. *)
Record t : Type := mk {
  interval : Z;
  function : nat -> result unit;
  finished : bool
}.

(** [__init__(self, client_session_keep_alive_heartbeat_frequency, f)]:
    hands the interval and [f] to [Timer.__init__], which stores them and
    creates the event. *)
Definition __init__ (client_session_keep_alive_heartbeat_frequency : Z)
    (f : nat -> result unit) : result t :=
  let interval := client_session_keep_alive_heartbeat_frequency in
  Ok {| interval := interval; function := f; finished := false |}.

(** Where the timer's thread stands in [run]. *)
Inductive pc : Type :=
| NotStarted                (* [start()] not called yet *)
| AtWhile                   (* about to test [while not self.finished.is_set()] *)
| AtWait                    (* inside [self.finished.wait(self.interval)] *)
| AtIf                      (* about to test [if not self.finished.is_set()] *)
| AtCall                    (* about to call [self.function()] *)
| Returned                  (* [run] returned *)
| Died (e : exn).           (* an exception left [run] *)

Record state : Type := mkState {
  self : t;
  at_ : pc;
  calls : nat;               (* calls of [self.function] so far *)
  log : list log_record
}.

Definition fresh (tm : t) : state :=
  {| self := tm; at_ := NotStarted; calls := 0; log := [] |}.

Definition set_finished (tm : t) : t :=
  {| interval := interval tm; function := function tm; finished := true |}.

Definition goto (s : state) (p : pc) : state :=
  {| self := self s; at_ := p; calls := calls s; log := log s |}.

(** [cancel()]: [self.finished.set()], from any thread at any moment. *)
Definition cancel (s : state) : state :=
  {| self := set_finished (self s); at_ := at_ s; calls := calls s;
     log := log s |}.

(** [start()]: the thread begins [run]. *)
Definition start (s : state) : state :=
  match at_ s with
  | NotStarted => goto s AtWhile
  | _ => s
  end.

(** One step of the thread inside [run]. *)
Definition step (s : state) : state :=
  match at_ s with
  | AtWhile => if finished (self s) then goto s Returned else goto s AtWait
  | AtWait => goto s AtIf
  | AtIf => if finished (self s) then goto s AtWhile else goto s AtCall
  | AtCall =>
      match function (self s) (calls s) with
      | Ok tt =>
          {| self := self s; at_ := AtWhile; calls := S (calls s);
             log := log s |}
      | Raise e =>
          if is_Exception e
          then {| self := self s; at_ := AtWhile; calls := S (calls s);
                  log := log s ++ [heartbeat_failure e] |}
          else {| self := self s; at_ := Died e; calls := S (calls s);
                  log := log s |}
      end
  | NotStarted | Returned | Died _ => s
  end.

(** What may happen next: the owner starts or cancels the timer, or the
    timer's thread moves. *)
Inductive action : Type := Start | Cancel | Step.

Definition act (a : action) (s : state) : state :=
  match a with
  | Start => start s
  | Cancel => cancel s
  | Step => step s
  end.

(** A schedule is one interleaving of the two threads. *)
Fixpoint exec (sched : list action) (s : state) : state :=
  match sched with
  | [] => s
  | a :: rest => exec rest (act a s)
  end.

(** One trip round the loop that is not cancelled takes four steps. *)
Fixpoint cycles (n : nat) : list action :=
  match n with
  | O => []
  | S k => Step :: Step :: Step :: Step :: cycles k
  end.

End HeartBeatTimer.

(** ** Notions the properties are stated with *)

(** The calls a retry loop makes to one backoff: [n] calls of [next_sleep],
    each given the sleep the call before returned (the first is given
    [sleep]), with the number of the attempt in the unused first place.  The
    chain stops at the first call that raises. *)
Fixpoint next_sleeps {G} `{RandomSource G}
    (self : DecorrelateJitterBackoff.t) (n : nat) (sleep : Z) (g : G)
  : result Z * G :=
  match n with
  | O => (Ok sleep, g)
  | S k =>
      match DecorrelateJitterBackoff.next_sleep self k sleep g with
      | (Ok v, g') => next_sleeps self k v g'
      | (Raise e, g') => (Raise e, g')
      end
  end.

(** What one call of the heartbeat callback adds to the log: a debug record
    when it raised an [Exception], nothing otherwise. *)
Definition logged_for (r : result unit) : list log_record :=
  match r with
  | Ok _ => []
  | Raise e => if is_Exception e then [heartbeat_failure e] else []
  end.

(** The records the first [n] calls of callback [f] account for. *)
Definition failures_of (f : nat -> result unit) (n : nat) : list log_record :=
  flat_map (fun k => logged_for (f k)) (seq 0 n).

(** [run] is over: it returned, or an exception left it. *)
Definition run_over (s : HeartBeatTimer.state) : bool :=
  match HeartBeatTimer.at_ s with
  | HeartBeatTimer.Returned | HeartBeatTimer.Died _ => true
  | _ => false
  end.

(** The thread steps a started [run] still takes, at most, once the event
    is set: out of the wait, past the test, to the loop test, out. *)
Definition steps_left (s : HeartBeatTimer.state) : nat :=
  match HeartBeatTimer.at_ s with
  | HeartBeatTimer.AtWait => 3
  | HeartBeatTimer.AtIf | HeartBeatTimer.AtCall => 2
  | HeartBeatTimer.AtWhile => 1
  | HeartBeatTimer.NotStarted | HeartBeatTimer.Returned
  | HeartBeatTimer.Died _ => 0
  end.

(** How many moves of the timer's thread a schedule holds. *)
Fixpoint thread_steps (sched : list HeartBeatTimer.action) : nat :=
  match sched with
  | [] => 0
  | HeartBeatTimer.Step :: rest => S (thread_steps rest)
  | _ :: rest => thread_steps rest
  end.

(** A block that does nothing to the clock but read it: the readings to
    come are the same, and none is handed back. *)
Definition only_reads_clock (body : TimeCNM.t -> Clock -> result unit * Clock)
  : Prop :=
  forall m c, time_at (snd (body m c)) = time_at c /\
              (reads c <= reads (snd (body m c)))%nat.

(** A clock that never goes back. *)
Definition never_goes_back (c : Clock) : Prop :=
  forall m n, (m <= n)%nat -> (time_at c m <= time_at c n)%Q.

(** ** Sample inputs *)

(** A clock that starts at 1.7e9 seconds and advances a quarter of a second
    between two reads. *)
Definition sample_clock : Clock :=
  {| time_at := fun n => (1700000000 + inject_Z (Z.of_nat n) / 4)%Q;
     reads := 0 |}.

(** A body of a [with] block that raises. *)
Definition failing_body (_ : TimeCNM.t) (c : Clock) : result unit * Clock :=
  (Raise (ValueError "boom"), c).

(** Heartbeat callbacks: one that returns, one that fails every time, one
    that asks the interpreter to exit. *)
Definition beat_ok (_ : nat) : result unit := Ok tt.


(** A callback that fails on every other call. *)
Definition beat_flaky (k : nat) : result unit :=
  if Nat.even k then Ok tt else Raise (ValueError "timeout").

Definition timer_of (f : nat -> result unit) : HeartBeatTimer.t :=
  {| HeartBeatTimer.interval := 3600;
     HeartBeatTimer.function := f;
     HeartBeatTimer.finished := false |}.

(** * Properties *)

(** ** [random.randint] *)
Section Randint.
Context {G : Type} `{RandomSource G}.

Lemma randint_in_range (g : G) (a b : Z) :
  a <= b ->
  exists n g', randint g a b = (Ok n, g') /\ a <= n <= b.
Proof.
  intros Hab. unfold randint, randrange.
  destruct (Z.ltb_spec 0 (b + 1 - a)) as [Hw | Hw]; [ | lia ].
  pose proof (randbelow_range g (b + 1 - a) Hw) as Hr.
  destruct (randbelow g (b + 1 - a)) as [r g'] eqn:E. cbn [fst] in Hr.
  exists (a + r), g'. split; [ reflexivity | lia ].
Qed.

Lemma randint_empty (g : G) (a b : Z) :
  b < a ->
  randint g a b = (Raise (ValueError "empty range for randrange()"), g).
Proof.
  intros Hab. unfold randint, randrange.
  destruct (Z.ltb_spec 0 (b + 1 - a)) as [Hw | Hw]; [ lia | reflexivity ].
Qed.

End Randint.

(** ** DecorrelateJitterBackoff *)
Module DecorrelateJitterBackoffFacts.
Import DecorrelateJitterBackoff.

Section WithSource.
Context {G : Type} `{RandomSource G}.

Lemma next_sleep_drawn {A} (self : t) (x : A) (sleep : Z) (g : G) :
  _base self <= sleep * 3 ->
  exists n g',
    next_sleep self x sleep g = (Ok (Z.min (_cap self) n), g') /\
    _base self <= n <= sleep * 3.
Proof.
  intros Hle. unfold next_sleep.
  destruct (randint_in_range g (_base self) (sleep * 3) Hle)
    as (n & g' & E & Hn).
  rewrite E. exists n, g'. split; [ reflexivity | exact Hn ].
Qed.

Lemma next_sleep_empty {A} (self : t) (x : A) (sleep : Z) (g : G) :
  sleep * 3 < _base self ->
  next_sleep self x sleep g =
    (Raise (ValueError "empty range for randrange()"), g).
Proof.
  intros Hlt. unfold next_sleep.
  rewrite (randint_empty g _ _ Hlt). reflexivity.
Qed.

(** C1, as amended.  With [0 <= base <= cap] and [previous_sleep >= 0],
    [next_sleep] returns a value of the closed interval [[base, cap]]
    whenever [base <= previous_sleep * 3]; when [previous_sleep * 3 < base]
    the range handed to [random.randint] is empty and the call raises
    [ValueError] instead of returning. *)
Theorem next_sleep_within_bounds {A} (base cap sleep : Z) (x : A) (g : G) :
  0 <= base <= cap ->
  0 <= sleep ->
  (base <= sleep * 3 /\
   exists v g', next_sleep (mk base cap) x sleep g = (Ok v, g') /\
                base <= v <= cap)
  \/
  (sleep * 3 < base /\
   exists m, next_sleep (mk base cap) x sleep g = (Raise (ValueError m), g)).
Proof.
  intros Hbc Hs.
  destruct (Z_le_gt_dec base (sleep * 3)) as [Hle | Hgt].
  - left. split; [ exact Hle | ].
    destruct (next_sleep_drawn (mk base cap) x sleep g Hle)
      as (n & g' & E & Hn).
    cbn [_base _cap] in E, Hn.
    exists (Z.min cap n), g'. split; [ exact E | lia ].
  - right. split; [ lia | ].
    eexists. apply next_sleep_empty. cbn [_base]. lia.
Qed.

(** C2, as amended.  With [0 <= base <= cap] and
    [previous_sleep * 3 <= base], [next_sleep] returns exactly [base] when
    [previous_sleep * 3 = base]; when [previous_sleep * 3 < base] nothing is
    clamped: the call raises [ValueError]. *)
Theorem next_sleep_degenerate_range {A} (base cap sleep : Z) (x : A) (g : G) :
  0 <= base <= cap ->
  sleep * 3 <= base ->
  (sleep * 3 = base /\
   exists g', next_sleep (mk base cap) x sleep g = (Ok base, g'))
  \/
  (sleep * 3 < base /\
   exists m, next_sleep (mk base cap) x sleep g = (Raise (ValueError m), g)).
Proof.
  intros Hbc Hs.
  destruct (Z.eq_dec (sleep * 3) base) as [Heq | Hne].
  - left. split; [ exact Heq | ].
    assert (Hle : _base (mk base cap) <= sleep * 3) by (cbn [_base]; lia).
    destruct (next_sleep_drawn (mk base cap) x sleep g Hle)
      as (n & g' & E & Hn).
    cbn [_base _cap] in E, Hn.
    exists g'. rewrite E. do 2 f_equal. lia.
  - right. split; [ lia | ].
    eexists. apply next_sleep_empty. cbn [_base]. lia.
Qed.

(** C9.  The first argument of [next_sleep] has no influence: for any two
    values passed there (of any types), the same instance, the same
    [previous_sleep] and the same random source give the same result and
    leave the source in the same state. *)
Theorem next_sleep_ignores_first_argument {A B}
    (self : t) (x : A) (y : B) (sleep : Z) (g : G) :
  next_sleep self x sleep g = next_sleep self y sleep g.
Proof. unfold next_sleep. reflexivity. Qed.

End WithSource.

(** C3, as amended.  Construction checks nothing: for every [base] and
    [cap], also those violating [0 <= base <= cap], [__init__] produces an
    instance holding exactly these two values, and never an error. *)
Theorem init_accepts_any_bounds (base cap : Z) :
  exists self, __init__ base cap = Ok self /\
               _base self = base /\ _cap self = cap.
Proof. eexists. repeat split. Qed.

(** C1 fails as stated: [base = 1], [cap = 10], [previous_sleep = 0] meet
    its conditions, and the call raises instead of returning a value. *)
Lemma next_sleep_within_bounds_fails_as_stated :
  (0 <= 1 <= 10) /\ 0 <= 0 /\
  fst (next_sleep (mk 1 10) tt 0 7) =
    Raise (ValueError "empty range for randrange()") /\
  ~ (exists v, fst (next_sleep (mk 1 10) tt 0 7) = Ok v /\ 1 <= v <= 10).
Proof.
  split; [ lia | ]. split; [ lia | ]. split; [ reflexivity | ].
  intros (v & E & _). vm_compute in E. discriminate E.
Qed.

Lemma next_sleep_within_bounds_witness :
  (0 <= 1 <= 10) /\ 0 <= 2 /\
  ((1 <= 2 * 3 /\
    exists v g', next_sleep (mk 1 10) tt 2 7 = (Ok v, g') /\ 1 <= v <= 10)
   \/
   (2 * 3 < 1 /\
    exists m, next_sleep (mk 1 10) tt 2 7 = (Raise (ValueError m), 7))).
Proof.
  split; [ lia | ]. split; [ lia | ].
  apply (next_sleep_within_bounds 1 10 2 tt 7); lia.
Defined.

(** C2 fails as stated: [base = 1], [cap = 10], [previous_sleep = 0] have
    [previous_sleep * 3 <= base], and the result is not [base]. *)
Lemma next_sleep_degenerate_range_fails_as_stated :
  (0 <= 1 <= 10) /\ 0 * 3 <= 1 /\
  fst (next_sleep (mk 1 10) tt 0 7) <> Ok 1.
Proof.
  split; [ lia | ]. split; [ lia | ]. vm_compute. discriminate.
Qed.

Lemma next_sleep_degenerate_range_witness :
  (0 <= 3 <= 10) /\ 1 * 3 <= 3 /\
  ((1 * 3 = 3 /\
    exists g', next_sleep (mk 3 10) tt 1 7 = (Ok 3, g'))
   \/
   (1 * 3 < 3 /\
    exists m, next_sleep (mk 3 10) tt 1 7 = (Raise (ValueError m), 7))).
Proof.
  split; [ lia | ]. split; [ lia | ].
  apply (next_sleep_degenerate_range 3 10 1 tt 7); lia.
Defined.

(** C3 fails as stated: [base = 5], [cap = 1] violate [0 <= base <= cap],
    and construction yields an instance. *)
Lemma init_accepts_any_bounds_fails_as_stated :
  ~ (0 <= 5 <= 1) /\
  __init__ 5 1 = Ok (mk 5 1) /\
  ~ (exists e, __init__ 5 1 = Raise e).
Proof.
  split; [ lia | ]. split; [ reflexivity | ].
  intros (e & E). discriminate E.
Qed.

End DecorrelateJitterBackoffFacts.

(** ** TimeCNM *)
Module TimeCNMFacts.
Import TimeCNM.

Lemma enter_sets_start (self : t) (c : Clock) :
  _start (fst (__enter__ self c)) = Some (fst (get_time_millis c)) /\
  _end (fst (__enter__ self c)) = _end self.
Proof.
  unfold __enter__. destruct (get_time_millis c) as [now c']. split; reflexivity.
Qed.

Lemma exit_sets_end (self : t) (exc : option exn) (c : Clock) :
  __exit__ self exc c =
    (PyNone,
     {| _start := _start self; _end := Some (fst (get_time_millis c)) |},
     snd (get_time_millis c)).
Proof.
  unfold __exit__. destruct (get_time_millis c) as [now c']. reflexivity.
Qed.

(** The manager a [with] statement leaves behind, whatever the body did. *)
Lemma with_leaves_both_stamps (body : t -> Clock -> result unit * Clock)
    (c : Clock) :
  let entered := __enter__ __init__ c in
  let after_body := snd (body (fst entered) (snd entered)) in
  snd (fst (with_ body c)) =
    {| _start := Some (fst (get_time_millis c));
       _end := Some (fst (get_time_millis after_body)) |}.
Proof.
  cbv zeta. unfold with_, __enter__.
  destruct (get_time_millis c) as [t0 c1]. cbn [fst snd].
  destruct (body _ c1) as [[[] | e] c2]; cbn [snd];
    rewrite exit_sets_end; cbn [truthy fst snd _start]; reflexivity.
Qed.

(** C6.  While the start or the end timestamp is unset, that is before the
    scope has been both entered and exited, [int(...)] raises the
    "not yet finished" exception and returns no value. *)
Theorem int_before_finished_raises (self : t) :
  _start self = None \/ _end self = None ->
  __int__ self =
    Raise (Exception_ "Trying to get timing before TimeCNM has finished").
Proof.
  intros [Hs | He]; unfold __int__.
  - rewrite Hs. reflexivity.
  - rewrite He. destruct (_start self); reflexivity.
Qed.

(** The two states a fresh manager passes through before its scope ends:
    as constructed, and entered but not exited. *)
Lemma int_before_finished_raises_witness :
  (_start __init__ = None \/ _end __init__ = None) /\
  __int__ __init__ =
    Raise (Exception_ "Trying to get timing before TimeCNM has finished") /\
  (_start (fst (__enter__ __init__ sample_clock)) = None \/
   _end (fst (__enter__ __init__ sample_clock)) = None) /\
  __int__ (fst (__enter__ __init__ sample_clock)) =
    Raise (Exception_ "Trying to get timing before TimeCNM has finished").
Proof.
  split; [ left; reflexivity | ].
  split; [ apply (int_before_finished_raises __init__); left; reflexivity | ].
  split; [ right; reflexivity | ].
  apply (int_before_finished_raises (fst (__enter__ __init__ sample_clock))).
  right. reflexivity.
Defined.

(** C7.  [__enter__] records the clock's milliseconds as the start,
    [__exit__] records them as the end whether or not an exception is in
    flight, and once both are set [int(...)] is exactly end minus start; so
    after a [with] block, failing or not, the conversion yields the
    milliseconds read at exit minus those read at entry. *)
Theorem int_is_end_minus_start :
  (forall s e, __int__ {| _start := Some s; _end := Some e |} = Ok (e - s)) /\
  (forall self c,
     _start (fst (__enter__ self c)) = Some (fst (get_time_millis c))) /\
  (forall self exc c,
     _end (snd (fst (__exit__ self exc c))) = Some (fst (get_time_millis c)) /\
     _start (snd (fst (__exit__ self exc c))) = _start self) /\
  (forall body c,
     __int__ (snd (fst (with_ body c))) =
       Ok (fst (get_time_millis
                  (snd (body (fst (__enter__ __init__ c))
                             (snd (__enter__ __init__ c)))))
           - fst (get_time_millis c))).
Proof.
  split; [ reflexivity | ].
  split; [ intros self c; apply enter_sets_start | ].
  split.
  - intros self exc c. rewrite exit_sets_end. split; reflexivity.
  - intros body c.
    pose proof (with_leaves_both_stamps body c) as E. cbv zeta in E.
    rewrite E. reflexivity.
Qed.

(** C10.  [__exit__] records the end timestamp and evaluates to [None]
    whatever exception is in flight, so when the body of the [with] block
    raises, the statement raises that same exception to its caller. *)
Theorem exit_never_suppresses
    (body : t -> Clock -> result unit * Clock) (c : Clock) (e : exn) :
  fst (body (fst (__enter__ __init__ c)) (snd (__enter__ __init__ c)))
    = Raise e ->
  (forall self exc c',
     fst (fst (__exit__ self exc c')) = PyNone /\
     _end (snd (fst (__exit__ self exc c')))
       = Some (fst (get_time_millis c'))) /\
  fst (fst (with_ body c)) = Raise e /\
  _end (snd (fst (with_ body c))) <> None.
Proof.
  intros Hbody. split.
  - intros self exc c'. rewrite exit_sets_end. split; reflexivity.
  - pose proof (with_leaves_both_stamps body c) as E. cbv zeta in E.
    rewrite E. split; [ | discriminate ].
    unfold with_. destruct (__enter__ __init__ c) as [m1 c1].
    cbn [fst snd] in Hbody.
    destruct (body m1 c1) as [r c2]. cbn [fst] in Hbody. subst r.
    rewrite exit_sets_end. reflexivity.
Qed.

Lemma exit_never_suppresses_witness :
  fst (fst (with_ failing_body sample_clock)) = Raise (ValueError "boom") /\
  _end (snd (fst (with_ failing_body sample_clock))) <> None.
Proof.
  apply (exit_never_suppresses failing_body sample_clock (ValueError "boom")).
  reflexivity.
Defined.

End TimeCNMFacts.

(** ** HeartBeatTimer *)
Module HeartBeatTimerFacts.
Import HeartBeatTimer.

(** No action replaces the callback, and none clears the event. *)
Lemma act_function (a : action) (s : state) :
  function (self (act a s)) = function (self s).
Proof.
  destruct a; cbn [act]; [ unfold start | reflexivity | unfold step ];
    destruct (at_ s); try reflexivity;
    try (destruct (finished (self s)); reflexivity).
  destruct (function (self s) (calls s)) as [[] | e]; [ reflexivity | ].
  destruct (is_Exception e); reflexivity.
Qed.

Lemma act_finished (a : action) (s : state) :
  finished (self s) = true -> finished (self (act a s)) = true.
Proof.
  intros Hf. destruct a; cbn [act]; [ unfold start | reflexivity | unfold step ];
    destruct (at_ s); try exact Hf;
    try (rewrite Hf; exact Hf).
  destruct (function (self s) (calls s)) as [[] | e]; [ exact Hf | ].
  destruct (is_Exception e); exact Hf.
Qed.

(** With the event set and the thread anywhere but just before the call,
    an action calls nothing and leaves the thread short of the call. *)
Lemma act_after_cancel (a : action) (s : state) :
  finished (self s) = true -> at_ s <> AtCall ->
  at_ (act a s) <> AtCall /\ calls (act a s) = calls s /\
  log (act a s) = log s.
Proof.
  intros Hf Hat.
  destruct a; cbn [act]; [ unfold start | auto | unfold step ];
    destruct (at_ s) eqn:E; try rewrite Hf; cbn; rewrite ?E;
    try (repeat split; congruence).
Qed.

Lemma exec_after_cancel (sched : list action) (s : state) :
  finished (self s) = true -> at_ s <> AtCall ->
  calls (exec sched s) = calls s /\ log (exec sched s) = log s.
Proof.
  revert s. induction sched as [ | a rest IH ]; intros s Hf Hat; cbn [exec].
  - split; reflexivity.
  - destruct (act_after_cancel a s Hf Hat) as (Hat' & Hc & Hl).
    destruct (IH (act a s) (act_finished a s Hf) Hat') as [Hc' Hl'].
    split; congruence.
Qed.

(** The call itself leaves the thread at the loop test or dead. *)
Lemma step_at_call (s : state) :
  at_ s = AtCall ->
  at_ (step s) <> AtCall /\ calls (step s) = S (calls s).
Proof.
  intros E. unfold step. rewrite E.
  destruct (function (self s) (calls s)) as [[] | e];
    [ | destruct (is_Exception e) ]; cbn; split; congruence.
Qed.

Lemma exec_one_late_call (sched : list action) (s : state) :
  finished (self s) = true ->
  (calls (exec sched s) <= S (calls s))%nat.
Proof.
  revert s. induction sched as [ | a rest IH ]; intros s Hf; cbn [exec].
  - lia.
  - destruct (at_ s) eqn:E;
      try (assert (Hat : at_ s <> AtCall) by congruence;
           destruct (exec_after_cancel (a :: rest) s Hf Hat) as [Hc _];
           cbn [exec] in Hc; lia).
    destruct a; cbn [act].
    + assert (Hs : start s = s) by (unfold start; rewrite E; reflexivity).
      rewrite Hs. apply IH, Hf.
    + specialize (IH (cancel s) eq_refl). cbn [cancel calls] in IH. exact IH.
    + destruct (step_at_call s E) as [Hat Hc].
      destruct (exec_after_cancel rest (step s) (act_finished Step s Hf) Hat)
        as [Hc' _].
      lia.
Qed.

Lemma exec_function (sched : list action) (s : state) :
  function (self (exec sched s)) = function (self s).
Proof.
  revert s. induction sched as [ | a rest IH ]; intros s; cbn [exec].
  - reflexivity.
  - rewrite IH. apply act_function.
Qed.








(** C5, as amended.  Once the event is set, the callback is called at most
    once more, and not at all unless the thread had already passed the test
    after the wait and was about to call.  In particular, when [cancel()]
    comes before [start()] no schedule makes a single call, and a thread
    that finds the event set after its wait goes back to the loop test and
    returns without calling. *)
Theorem cancelled_timer_stops_calling (tm : t) (s : state)
    (sched : list action) :
  finished (self s) = true ->
  (calls (exec sched s) <= S (calls s))%nat /\
  (at_ s <> AtCall -> calls (exec sched s) = calls s) /\
  calls (exec sched (cancel (fresh tm))) = 0%nat /\
  (at_ s = AtIf ->
   at_ (step s) = AtWhile /\ at_ (step (step s)) = Returned /\
   calls (step (step s)) = calls s).
Proof.
  intros Hf. split; [ | split; [ | split ] ].
  - apply exec_one_late_call, Hf.
  - intros Hat. apply exec_after_cancel; assumption.
  - apply (exec_after_cancel sched (cancel (fresh tm)));
      [ reflexivity | cbn; congruence ].
  - intros E.
    assert (S1 : step s = goto s AtWhile)
      by (unfold step; rewrite E, Hf; reflexivity).
    rewrite S1. unfold step. cbn [goto at_ self]. rewrite Hf.
    repeat split.
Qed.

Lemma cancelled_timer_stops_calling_witness :
  finished (self (exec [Start; Step; Step; Cancel]
                    (fresh (timer_of beat_ok)))) = true /\
  calls (exec [Step; Step; Step; Step]
           (exec [Start; Step; Step; Cancel] (fresh (timer_of beat_ok))))
    = 0%nat /\
  calls (exec (Start :: cycles 4) (cancel (fresh (timer_of beat_ok))))
    = 0%nat /\
  at_ (step (step (exec [Start; Step; Step; Cancel]
                     (fresh (timer_of beat_ok))))) = Returned.
Proof.
  destruct (cancelled_timer_stops_calling (timer_of beat_ok)
              (exec [Start; Step; Step; Cancel] (fresh (timer_of beat_ok)))
              (Start :: cycles 4) eq_refl) as (_ & _ & Hpre & Hif).
  destruct (cancelled_timer_stops_calling (timer_of beat_ok)
              (exec [Start; Step; Step; Cancel] (fresh (timer_of beat_ok)))
              [Step; Step; Step; Step] eq_refl) as (_ & Hquiet & _ & _).
  split; [ reflexivity | ].
  split; [ apply Hquiet; discriminate | ].
  split; [ exact Hpre | ].
  apply Hif. reflexivity.
Defined.

(** C5 fails as stated: the thread passes the test after its wait,
    [cancel()] sets the event, and the thread's next step calls the
    callback all the same. *)
Lemma cancelled_timer_stops_calling_fails_as_stated :
  finished (self (exec [Start; Step; Step; Step; Cancel]
                    (fresh (timer_of beat_ok)))) = true /\
  calls (exec [Start; Step; Step; Step; Cancel]
           (fresh (timer_of beat_ok))) = 0%nat /\
  calls (exec [Step]
           (exec [Start; Step; Step; Step; Cancel]
              (fresh (timer_of beat_ok)))) = 1%nat.
Proof. repeat split. Qed.

(** C8, as amended.  Construction checks nothing: for every interval, also
    zero and negative ones, [__init__] produces an unstarted, uncancelled
    timer holding that interval and the callback, and never an error. *)
Theorem heartbeat_init_accepts_any_interval (interval : Z)
    (f : nat -> result unit) :
  __init__ interval f =
    Ok {| interval := interval; function := f; finished := false |}.
Proof. reflexivity. Qed.

(** C8 fails as stated: the intervals [0] and [-5] give an instance. *)
Lemma heartbeat_init_accepts_any_interval_fails_as_stated :
  0 <= 0 /\ -5 <= 0 /\
  ~ (exists e, __init__ 0 beat_ok = Raise e) /\
  ~ (exists e, __init__ (-5) beat_ok = Raise e).
Proof.
  split; [ lia | ]. split; [ lia | ].
  split; intros (e & E); discriminate E.
Qed.

End HeartBeatTimerFacts.

(** * Further properties *)

(** ** DecorrelateJitterBackoff: bounds without assumptions on the setup *)
Module DecorrelateJitterBackoffMore.
Import DecorrelateJitterBackoff DecorrelateJitterBackoffFacts.

Section WithSource.
Context {G : Type} `{RandomSource G}.

(** X1.  Whatever [base] and [cap] are, a call whose range is not empty
    ([base <= previous_sleep * 3]) returns a value that exceeds neither
    [cap] nor three times the previous sleep, and is no smaller than the
    smaller of [base] and [cap]. *)
Theorem next_sleep_growth_bound {A} (self : t) (x : A) (sleep : Z) (g : G) :
  _base self <= sleep * 3 ->
  exists v g',
    next_sleep self x sleep g = (Ok v, g') /\
    v <= _cap self /\ v <= sleep * 3 /\
    Z.min (_base self) (_cap self) <= v.
Proof.
  intros Hle.
  destruct (next_sleep_drawn self x sleep g Hle) as (n & g' & E & Hn).
  exists (Z.min (_cap self) n), g'. split; [ exact E | lia ].
Qed.

(** X2.  A backoff set up with [cap < base] returns exactly [cap], a value
    below its own [base], on every call whose range is not empty. *)
Theorem next_sleep_cap_below_base {A} (self : t) (x : A) (sleep : Z) (g : G) :
  _cap self < _base self ->
  _base self <= sleep * 3 ->
  exists g', next_sleep self x sleep g = (Ok (_cap self), g').
Proof.
  intros Hcap Hle.
  destruct (next_sleep_drawn self x sleep g Hle) as (n & g' & E & Hn).
  exists g'. rewrite E. do 2 f_equal. lia.
Qed.

(** X3.  With [0 <= base <= cap], a chain of calls that feeds each returned
    sleep to the next call never raises once its first range is not empty:
    after any positive number of calls the sleep lies in [[base, cap]]. *)
Theorem next_sleeps_stay_within_bounds (self : t) (n : nat) (sleep : Z)
    (g : G) :
  0 <= _base self <= _cap self ->
  _base self <= sleep * 3 ->
  exists v g',
    next_sleeps self (S n) sleep g = (Ok v, g') /\
    _base self <= v <= _cap self.
Proof.
  intros Hbc. revert sleep g.
  induction n as [ | n IH ]; intros sleep g Hle.
  - destruct (next_sleep_drawn self 0%nat sleep g Hle) as (m & g1 & E & Hm).
    exists (Z.min (_cap self) m), g1. cbn [next_sleeps]. rewrite E.
    split; [ reflexivity | lia ].
  - destruct (next_sleep_drawn self (S n) sleep g Hle) as (m & g1 & E & Hm).
    change (next_sleeps self (S (S n)) sleep g)
      with (match next_sleep self (S n) sleep g with
            | (Ok v, g') => next_sleeps self (S n) v g'
            | (Raise e, g') => (Raise e, g')
            end).
    rewrite E. apply IH. lia.
Qed.

End WithSource.

Lemma next_sleep_growth_bound_witness :
  1 <= 2 * 3 /\
  exists v g',
    next_sleep (mk 1 10) tt 2 7 = (Ok v, g') /\
    v <= 10 /\ v <= 2 * 3 /\ Z.min 1 10 <= v.
Proof.
  split; [ lia | ].
  apply (next_sleep_growth_bound (mk 1 10) tt 2 7). cbn. lia.
Defined.

Lemma next_sleep_cap_below_base_witness :
  2 < 5 /\ 5 <= 4 * 3 /\
  exists g', next_sleep (mk 5 2) tt 4 7 = (Ok 2, g').
Proof.
  split; [ lia | ]. split; [ lia | ].
  apply (next_sleep_cap_below_base (mk 5 2) tt 4 7); cbn; lia.
Defined.

Lemma next_sleeps_stay_within_bounds_witness :
  (0 <= 1 <= 16) /\ 1 <= 1 * 3 /\
  exists v g',
    next_sleeps (mk 1 16) 6 1 7 = (Ok v, g') /\ 1 <= v <= 16.
Proof.
  split; [ lia | ]. split; [ lia | ].
  apply (next_sleeps_stay_within_bounds (mk 1 16) 5 1 7); cbn; lia.
Defined.

End DecorrelateJitterBackoffMore.

(** ** The clock *)
Module ClockFacts.

Lemma div_le_cross (a b c d : Z) :
  0 <= a -> 0 < b -> 0 < d -> a * d <= c * b -> a / b <= c / d.
Proof.
  intros Ha Hb Hd Hle.
  apply Z.div_le_lower_bound; [ exact Hd | ].
  pose proof (Z.mul_div_le a b Hb) as Hq.
  pose proof (Z.div_pos a b Ha Hb) as Hq0.
  nia.
Qed.

Lemma quot_of_negative (a b : Z) :
  a < 0 -> 0 < b -> Z.quot a b = - (- a / b).
Proof.
  intros Ha Hb.
  rewrite <- (Z.quot_div_nonneg (- a) b) by lia.
  rewrite Z.quot_opp_l by lia. lia.
Qed.

(** Truncation towards zero keeps the order. *)
Lemma int_of_Q_monotone (x y : Q) :
  (x <= y)%Q -> int_of_Q x <= int_of_Q y.
Proof.
  destruct x as [a b], y as [c d]. unfold Qle, int_of_Q. cbn [Qnum Qden].
  intros Hle.
  assert (Hb : 0 < Zpos b) by lia. assert (Hd : 0 < Zpos d) by lia.
  destruct (Z_lt_le_dec a 0) as [Ha | Ha];
    destruct (Z_lt_le_dec c 0) as [Hc | Hc].
  - rewrite (quot_of_negative a _ Ha Hb), (quot_of_negative c _ Hc Hd).
    apply Z.opp_le_mono. rewrite !Z.opp_involutive.
    apply div_le_cross; lia.
  - rewrite (quot_of_negative a _ Ha Hb).
    pose proof (Z.quot_pos c (Zpos d) Hc Hd).
    pose proof (Z.div_pos (- a) (Zpos b) ltac:(lia) Hb). lia.
  - nia.
  - rewrite !Z.quot_div_nonneg by lia.
    apply div_le_cross; lia.
Qed.

Lemma get_time_millis_reading (c : Clock) :
  get_time_millis c =
    (int_of_Q (time_at c (reads c) * 1000),
     {| time_at := time_at c; reads := S (reads c) |}).
Proof. reflexivity. Qed.

Lemma sample_clock_never_goes_back : never_goes_back sample_clock.
Proof.
  intros m n Hmn. cbn [sample_clock time_at].
  apply Qplus_le_r. unfold Qdiv.
  apply Qmult_le_compat_r; [ | discriminate ].
  rewrite <- Zle_Qle. lia.
Qed.

End ClockFacts.

(** ** TimeCNM: the elapsed time and a second use *)
Module TimeCNMMore.
Import TimeCNM TimeCNMFacts ClockFacts.

(** X5.  On a clock that never goes back, around a block that does nothing
    to the clock but read it, the [with] statement leaves a manager whose
    integer conversion succeeds with a duration that is not negative,
    whether the block returned or raised. *)
Theorem elapsed_is_not_negative
    (body : t -> Clock -> result unit * Clock) (c : Clock) :
  never_goes_back c ->
  only_reads_clock body ->
  exists d, __int__ (snd (fst (with_ body c))) = Ok d /\ 0 <= d.
Proof.
  intros Hmono Hbody.
  pose proof (with_leaves_both_stamps body c) as E. cbv zeta in E.
  rewrite E. unfold __int__. cbn [_start _end].
  eexists. split; [ reflexivity | ].
  destruct (Hbody (fst (__enter__ __init__ c)) (snd (__enter__ __init__ c)))
    as [Htime Hreads].
  set (after := snd (body (fst (__enter__ __init__ c))
                          (snd (__enter__ __init__ c)))) in *.
  assert (Hc1 : snd (__enter__ __init__ c) =
                {| time_at := time_at c; reads := S (reads c) |})
    by reflexivity.
  rewrite Hc1 in Htime, Hreads. cbn [time_at reads] in Htime, Hreads.
  rewrite !get_time_millis_reading. cbn [fst]. rewrite Htime.
  apply Z.le_0_sub, int_of_Q_monotone.
  apply Qmult_le_compat_r; [ | discriminate ].
  apply Hmono. lia.
Qed.

Lemma elapsed_is_not_negative_witness :
  exists d,
    __int__ (snd (fst (with_ failing_body sample_clock))) = Ok d /\ 0 <= d.
Proof.
  apply (elapsed_is_not_negative failing_body sample_clock).
  - exact sample_clock_never_goes_back.
  - intros m c. split; [ reflexivity | apply le_n ].
Defined.

(** X6.  A manager is not reset by a second use: entering again one whose
    scope has already exited keeps the old end timestamp, so inside the
    second scope the integer conversion does not raise; it returns the old
    end minus the new start. *)
Theorem reentered_manager_reads_stale_end (self : t) (c : Clock) (e : Z) :
  _end self = Some e ->
  _end (fst (__enter__ self c)) = Some e /\
  __int__ (fst (__enter__ self c)) = Ok (e - fst (get_time_millis c)).
Proof.
  intros He.
  destruct (enter_sets_start self c) as [Hs Hk].
  unfold __int__. rewrite Hs, Hk, He. split; reflexivity.
Qed.

Lemma reentered_manager_reads_stale_end_witness :
  _end (snd (fst (with_ failing_body sample_clock)))
    = Some 1700000000250 /\
  __int__ (fst (__enter__ (snd (fst (with_ failing_body sample_clock)))
                  (snd (with_ failing_body sample_clock))))
    = Ok (1700000000250
          - fst (get_time_millis (snd (with_ failing_body sample_clock)))).
Proof.
  split; [ reflexivity | ].
  apply (reentered_manager_reads_stale_end
           (snd (fst (with_ failing_body sample_clock)))
           (snd (with_ failing_body sample_clock)) 1700000000250).
  reflexivity.
Defined.

End TimeCNMMore.

(** ** HeartBeatTimer: how [run] ends, and what it logs *)
Module HeartBeatTimerMore.
Import HeartBeatTimer HeartBeatTimerFacts.

Lemma act_started (a : action) (s : state) :
  at_ s <> NotStarted -> at_ (act a s) <> NotStarted.
Proof.
  intros Hat.
  destruct a; cbn [act]; [ unfold start | exact Hat | unfold step ];
    destruct (at_ s) eqn:E; try (cbn; congruence);
    try (destruct (finished (self s)); cbn; congruence).
  destruct (function (self s) (calls s)) as [[] | e];
    [ | destruct (is_Exception e) ]; cbn; congruence.
Qed.

(** With the event set, a move of the thread brings a started [run] one
    step nearer its end, and the owner's actions take it no further away. *)
Lemma act_steps_left (a : action) (s : state) :
  finished (self s) = true -> at_ s <> NotStarted ->
  (steps_left (act a s) + thread_steps [a] <= Nat.max (steps_left s) 1)%nat /\
  (steps_left (act a s) <= steps_left s)%nat.
Proof.
  intros Hf Hat.
  destruct a; cbn [act thread_steps]; unfold steps_left;
    [ unfold start | cbn [cancel at_] | unfold step ];
    destruct (at_ s) eqn:E; try rewrite Hf; cbn [goto at_]; rewrite ?E;
    try (split; cbn; lia); try congruence.
  destruct (function (self s) (calls s)) as [[] | e];
    [ | destruct (is_Exception e) ]; cbn [at_]; split; cbn; lia.
Qed.

Lemma exec_steps_left (sched : list action) (s : state) :
  finished (self s) = true -> at_ s <> NotStarted ->
  (steps_left (exec sched s) <= steps_left s - thread_steps sched)%nat.
Proof.
  revert s. induction sched as [ | a rest IH ]; intros s Hf Hat.
  - cbn [exec thread_steps]. lia.
  - cbn [exec].
    specialize (IH (act a s) (act_finished a s Hf) (act_started a s Hat)).
    destruct (act_steps_left a s Hf Hat) as [H1 H2].
    destruct a; cbn [thread_steps] in *; lia.
Qed.

Lemma steps_left_bound (s : state) : (steps_left s <= 3)%nat.
Proof. unfold steps_left. destruct (at_ s); lia. Qed.

Lemma no_steps_left (s : state) :
  at_ s <> NotStarted -> steps_left s = 0%nat -> run_over s = true.
Proof.
  unfold steps_left, run_over. destruct (at_ s); congruence.
Qed.

Lemma exec_started (sched : list action) (s : state) :
  at_ s <> NotStarted -> at_ (exec sched s) <> NotStarted.
Proof.
  revert s. induction sched as [ | a rest IH ]; intros s Hat; cbn [exec].
  - exact Hat.
  - apply IH, act_started, Hat.
Qed.

(** Short of the call with the event set, nothing can kill the thread. *)
Lemma exec_after_cancel_alive (sched : list action) (s : state) :
  finished (self s) = true -> at_ s <> AtCall ->
  (forall e, at_ s <> Died e) ->
  forall e, at_ (exec sched s) <> Died e.
Proof.
  revert s. induction sched as [ | a rest IH ]; intros s Hf Hat Halive;
    cbn [exec].
  - exact Halive.
  - destruct (act_after_cancel a s Hf Hat) as (Hat' & _ & _).
    apply IH; [ apply act_finished, Hf | exact Hat' | ].
    intros e.
    destruct a; cbn [act]; [ unfold start | apply Halive | unfold step ];
      destruct (at_ s) eqn:E; try rewrite Hf; cbn [goto at_]; rewrite ?E;
      congruence.
Qed.

(** X7.  Cancelling ends a started [run] within three moves of its thread,
    whatever the owner does meanwhile: by then [run] is over, and it has
    returned normally unless the event was set while the thread was about
    to call the callback (the call may then raise past the handler). *)
Theorem cancelled_run_is_over (s : state) (sched : list action) :
  finished (self s) = true ->
  at_ s <> NotStarted ->
  (3 <= thread_steps sched)%nat ->
  run_over (exec sched s) = true /\
  (at_ s <> AtCall -> (forall e, at_ s <> Died e) ->
   at_ (exec sched s) = Returned).
Proof.
  intros Hf Hat Hsteps.
  assert (Hover : run_over (exec sched s) = true).
  { apply no_steps_left; [ apply exec_started, Hat | ].
    pose proof (exec_steps_left sched s Hf Hat).
    pose proof (steps_left_bound s). lia. }
  split; [ exact Hover | ].
  intros Hcall Halive.
  pose proof (exec_after_cancel_alive sched s Hf Hcall Halive) as Hlive.
  unfold run_over in Hover.
  destruct (at_ (exec sched s)) eqn:E; try discriminate Hover;
    [ reflexivity | ].
  exfalso. exact (Hlive e eq_refl).
Qed.

Lemma cancelled_run_is_over_witness :
  run_over (exec [Step; Start; Step; Cancel; Step]
              (exec [Start; Step; Cancel] (fresh (timer_of beat_ok))))
    = true /\
  at_ (exec [Step; Start; Step; Cancel; Step]
         (exec [Start; Step; Cancel] (fresh (timer_of beat_ok))))
    = Returned.
Proof.
  destruct (cancelled_run_is_over
              (exec [Start; Step; Cancel] (fresh (timer_of beat_ok)))
              [Step; Start; Step; Cancel; Step])
    as [Hover Hclean];
    [ reflexivity | discriminate | cbn; lia | ].
  split; [ exact Hover | ].
  apply Hclean; [ discriminate | intros e; discriminate ].
Defined.

Lemma act_not_cancelled (a : action) (s : state) :
  finished (self s) = false -> a <> Cancel -> at_ s <> Returned ->
  finished (self (act a s)) = false /\ at_ (act a s) <> Returned.
Proof.
  intros Hf Ha Hat.
  destruct a; cbn [act]; [ unfold start | congruence | unfold step ];
    destruct (at_ s) eqn:E; try rewrite Hf; cbn [goto at_ self];
    rewrite ?E; try (split; congruence).
  destruct (function (self s) (calls s)) as [[] | e];
    [ | destruct (is_Exception e) ]; cbn [at_ self]; split; congruence.
Qed.

(** X8.  [run] never returns of its own accord: as long as nobody cancels
    the timer, no schedule brings the thread to the end of [run]. *)
Theorem uncancelled_run_never_returns (s : state) (sched : list action) :
  finished (self s) = false ->
  ~ In Cancel sched ->
  at_ s <> Returned ->
  at_ (exec sched s) <> Returned.
Proof.
  revert s. induction sched as [ | a rest IH ]; intros s Hf Hnc Hat;
    cbn [exec].
  - exact Hat.
  - assert (Ha : a <> Cancel) by (intros ->; apply Hnc; left; reflexivity).
    destruct (act_not_cancelled a s Hf Ha Hat) as [Hf' Hat'].
    apply IH; [ exact Hf' | | exact Hat' ].
    intros Hin. apply Hnc. right. exact Hin.
Qed.

Lemma uncancelled_run_never_returns_witness :
  at_ (exec (Start :: cycles 6) (fresh (timer_of beat_flaky))) <> Returned.
Proof.
  apply (uncancelled_run_never_returns (fresh (timer_of beat_flaky))
           (Start :: cycles 6)).
  - reflexivity.
  - cbn. intros Hin. repeat (destruct Hin as [Hin | Hin]; [ discriminate | ]).
    exact Hin.
  - discriminate.
Defined.

Lemma failures_of_S (f : nat -> result unit) (n : nat) :
  failures_of f (S n) = (failures_of f n ++ logged_for (f n))%list.
Proof.
  unfold failures_of. rewrite seq_S, flat_map_app. cbn [flat_map].
  rewrite app_nil_r. reflexivity.
Qed.

Lemma logged_for_short (r : result unit) :
  (List.length (logged_for r) <= 1)%nat /\
  Forall (fun rec => levelno rec = DEBUG) (logged_for r).
Proof.
  destruct r as [u | e]; cbn [logged_for];
    [ | destruct (is_Exception e) ]; split; cbn; auto.
Qed.

Lemma failures_of_shape (f : nat -> result unit) (n : nat) :
  (List.length (failures_of f n) <= n)%nat /\
  Forall (fun rec => levelno rec = DEBUG) (failures_of f n).
Proof.
  induction n as [ | n [IHlen IHall] ].
  - split; [ apply le_n | constructor ].
  - rewrite failures_of_S, List.length_app.
    destruct (logged_for_short (f n)) as [Hlen Hall].
    split; [ lia | ].
    apply Forall_app. split; assumption.
Qed.

(** The log holds the failures of the calls made so far, and every action
    keeps it so. *)
Lemma act_log (a : action) (s : state) :
  log s = failures_of (function (self s)) (calls s) ->
  log (act a s) = failures_of (function (self (act a s))) (calls (act a s)).
Proof.
  intros Hlog. rewrite act_function.
  destruct a; cbn [act]; [ unfold start | exact Hlog | unfold step ];
    destruct (at_ s); try exact Hlog;
    try (destruct (finished (self s)); exact Hlog).
  destruct (function (self s) (calls s)) as [[] | e] eqn:F;
    [ | destruct (is_Exception e) eqn:X ];
    cbn [calls log]; rewrite failures_of_S, F, <- Hlog; cbn [logged_for];
    rewrite ?X, ?app_nil_r; reflexivity.
Qed.

Lemma exec_log (sched : list action) (s : state) :
  log s = failures_of (function (self s)) (calls s) ->
  log (exec sched s) =
    failures_of (function (self (exec sched s))) (calls (exec sched s)).
Proof.
  revert s. induction sched as [ | a rest IH ]; intros s Hlog; cbn [exec].
  - exact Hlog.
  - apply IH, act_log, Hlog.
Qed.

(** X9.  Whatever the interleaving, the log of a timer holds exactly one
    debug record for each call of the callback that raised an [Exception],
    in the order of the calls, and nothing else: calls that returned, and
    calls whose exception left [run], add no record.  So there are never
    more records than calls, and every record is at debug level. *)
Theorem log_is_the_failures (tm : t) (sched : list action) :
  log (exec sched (fresh tm)) =
    failures_of (function tm) (calls (exec sched (fresh tm))) /\
  (List.length (log (exec sched (fresh tm)))
     <= calls (exec sched (fresh tm)))%nat /\
  Forall (fun rec => levelno rec = DEBUG) (log (exec sched (fresh tm))).
Proof.
  assert (E : log (exec sched (fresh tm)) =
              failures_of (function tm) (calls (exec sched (fresh tm)))).
  { rewrite (exec_log sched (fresh tm) eq_refl), exec_function.
    reflexivity. }
  rewrite E. split; [ reflexivity | ].
  apply failures_of_shape.
Qed.




End HeartBeatTimerMore.
